(** * nethersum: the chat-history buffer and the /summarize pipeline

    A shallow embedding of [father.py]: the process-wide [message_history]
    dictionary, the [store_message] handler that appends to it and evicts,
    and the [summarize] handler that renders the retained messages, checks
    their length, calls the completion service and replies.

    Conventions of the model.
    - A Python [str] is a [string]; one [ascii] stands for one character
      (a code point below 256), so [String.length] is Python's [len].
    - A [datetime] is the number of seconds since the epoch, in [Z]
      (Telegram dates have a resolution of one second);
      [timedelta(hours=1)] is [3600].
    - The handlers run in a small state-and-exception monad over a
      [world]: the dictionary plus the trace of the calls made to the
      outside (sleeps, replies, completion requests).  Logging is left
      out: it neither raises nor touches the dictionary. *)

From Stdlib Require Import ZArith Ascii String.
From stdpp Require Import gmap strings list fin_maps sorting.

(** ** What the transport hands to a handler *)

Module Telegram.

(** [update.message.from_user] *)
Record User := {
  username : option string;
  first_name : string
}.

(** [update.message]; [text] is [None] for a message without text. *)
Record Message := {
  chat_id : Z;
  text : option string;
  date : Z;
  from_user : User
}.

End Telegram.

(** ** The stored data *)

(** One element of a chat's list:
    [{'text': str, 'timestamp': datetime, 'username': str}]. *)
Record entry := Entry {
  text : string;
  timestamp : Z;
  username : string
}.

#[global] Instance entry_eq_dec : EqDecision entry.
Proof. solve_decision. Defined.

(** Calls that leave the process. *)
Inductive event :=
  | Sleep (seconds : Z)                    (* [await asyncio.sleep(n)] *)
  | Reply (body : string)                  (* [update.message.reply_text(body)] *)
  | Generate (system user : string).       (* [client.chat.completions.create] *)

#[global] Instance event_eq_dec : EqDecision event.
Proof. solve_decision. Defined.

Record world := World {
  message_history : gmap Z (list entry);
  trace : list event
}.

(** [message_history = {}] at import time. *)
Definition initial : world := World ∅ [].

(** The services a handler talks to, fixed for the duration of one call.
    [completion sys usr] is [None] when
    [client.chat.completions.create] raises, and otherwise the [content]
    ([Optional[str]]) of each element of [response.choices].
    [delivers body] tells whether [reply_text body] returns ([true]) or
    raises ([false]). *)
Record services := Services {
  completion : string → string → option (list (option string));
  delivers : string → bool
}.

(** ** The handler monad *)

Inductive result (A : Type) :=
  | Ok (a : A)
  | Raised.            (* an [Exception] on its way up *)
Arguments Ok {A} a.
Arguments Raised {A}.

Definition M (A : Type) : Type := world → result A * world.

Definition ret {A} (a : A) : M A := λ w, (Ok a, w).

Definition bind {A B} (c : M A) (f : A → M B) : M B := λ w,
  match c w with
  | (Ok a, w') => f a w'
  | (Raised, w') => (Raised, w')
  end.

Declare Scope handler_scope.
Delimit Scope handler_scope with handler.
Bind Scope handler_scope with M.
Notation "'let*' x := c 'in' k" := (bind c (λ x, k))
  (at level 10, x name, c at level 100, k at level 200,
   only parsing) : handler_scope.
Notation "c >> k" := (bind c (λ _, k))
  (at level 100, k at level 200, right associativity) : handler_scope.
Open Scope handler_scope.

Definition raise {A} : M A := λ w, (Raised, w).

(** Falling through: nothing happens. *)
Definition pass : M () := ret ().

(** [try: body except Exception: handler] *)
Definition try_except (body handler : M ()) : M () := λ w,
  match body w with
  | (Ok a, w') => (Ok a, w')
  | (Raised, w') => handler w'
  end.

Definition emit (e : event) : M () := λ w,
  (Ok (), World (message_history w) (trace w ++ [e])).

(** [message_history[k]]: a [KeyError] when [k] is absent. *)
Definition getitem (k : Z) : M (list entry) := λ w,
  match message_history w !! k with
  | Some l => (Ok l, w)
  | None => (Raised, w)
  end.

(** [message_history[k] = l] *)
Definition setitem (k : Z) (l : list entry) : M () := λ w,
  (Ok (), World (<[k := l]> (message_history w)) (trace w)).

(** [k in message_history] *)
Definition contains (k : Z) : M bool := λ w,
  (Ok (bool_decide (is_Some (message_history w !! k))), w).

Definition sleep (n : Z) : M () := emit (Sleep n).

Definition reply_text (S : services) (body : string) : M () :=
  emit (Reply body) >>
  if delivers S body then pass else raise.

Definition create (S : services) (sys usr : string)
  : M (list (option string)) :=
  emit (Generate sys usr) >>
  match completion S sys usr with
  | Some choices => ret choices
  | None => raise
  end.

Definition run {A} (c : M A) (w : world) : world := (c w).2.
Definition outcome {A} (c : M A) (w : world) : result A := (c w).1.

(** ** [store_message] *)

(** [timedelta(hours=1)] and the bound of the slice [[-100:]]. *)
Definition RETENTION_WINDOW : Z := 3600.
Definition MAX_RETAINED : nat := 100.

(** The slice [l[-n:]] for [n > 0]: the whole list when it has at most [n]
    elements, its last [n] otherwise. *)
Definition last_n {A} (n : nat) (l : list A) : list A :=
  drop (length l - n) l.

(** [sender.username if sender.username else sender.first_name]: [None]
    and the empty string are both falsy. *)
Definition display_name (u : Telegram.User) : string :=
  match Telegram.username u with
  | Some (String c s) => String c s
  | _ => Telegram.first_name u
  end.

Definition entry_of (m : Telegram.Message) (txt : string) : entry :=
  Entry txt (Telegram.date m) (display_name (Telegram.from_user m)).

Definition store_message (m : Telegram.Message) : M () :=
  let chat_id := Telegram.chat_id m in
  match Telegram.text m with
  | None | Some EmptyString => pass          (* [if not update.message.text] *)
  | Some txt =>
      let* known := contains chat_id in
      (if known then pass else setitem chat_id []) >>
      let* l := getitem chat_id in
      setitem chat_id (l ++ [entry_of m txt]) >>
      let cutoff_time := (Telegram.date m - RETENTION_WINDOW)%Z in
      let* l := getitem chat_id in
      setitem chat_id
        (last_n MAX_RETAINED
           (filter (λ e, (cutoff_time ≤ timestamp e)%Z) l))
  end.

(** ** [start] *)

Definition START_TEXT : string :=
  "Hi! I'm a summarization bot. Send /summarize to summarize the entire chat history with usernames and reminders.".

Definition start (S : services) (m : Telegram.Message) : M () :=
  try_except (sleep 1 >> reply_text S START_TEXT) pass.

(** ** [summarize] *)

Definition newline : string := String (ascii_of_nat 10) EmptyString.

(** [str.isspace] on one character below code point 256. *)
Definition isspace (c : ascii) : bool :=
  let n := nat_of_ascii c in
  ((9 <=? n) && (n <=? 13)) || ((28 <=? n) && (n <=? 32))
  || (n =? 133) || (n =? 160).

Fixpoint lstrip (s : string) : string :=
  match s with
  | EmptyString => EmptyString
  | String c r => if isspace c then lstrip r else s
  end.

Definition string_rev (s : string) : string :=
  string_of_list_ascii (rev (list_ascii_of_string s)).

Definition rstrip (s : string) : string :=
  string_rev (lstrip (string_rev s)).

(** [str.strip()] *)
Definition strip (s : string) : string := rstrip (lstrip s).

(** [sep.join(parts)] *)
Fixpoint join (sep : string) (parts : list string) : string :=
  match parts with
  | [] => EmptyString
  | [p] => p
  | p :: rest => p +:+ sep +:+ join sep rest
  end.

(** [f"[@{msg['username']}] {msg['text']}"] *)
Definition render (e : entry) : string :=
  "[@" +:+ username e +:+ "] " +:+ text e.

Definition text_to_summarize (relevant_messages : list entry) : string :=
  join " " (render <$> relevant_messages).

Definition SYSTEM_PROMPT : string :=
  "You are a helpful assistant that summarizes text. Include usernames in the summary. Extract reminders, places to be, or events in bullet points.".

Definition USER_PROMPT (body : string) : string :=
  "Summarize the following text in 1-2 sentences (max 130 characters, include usernames). Then list any reminders, places to be, or events in bullet points:"
  +:+ newline +:+ body.

Definition NO_HISTORY : string := "No messages stored for this chat yet.".
Definition NO_MESSAGES : string := "No messages found in chat.".
Definition NOT_ENOUGH : string := "Not enough text to summarize.".
Definition FAILED : string :=
  "Failed to summarize messages. Please try again later.".

(** [response.choices[0].message.content.strip()]: an [IndexError] without
    choices, an [AttributeError] when the content is [None]. *)
Definition summary_of (choices : list (option string)) : M string :=
  match choices with
  | Some content :: _ => ret (strip content)
  | _ => raise
  end.

Definition summarize (S : services) (m : Telegram.Message) : M () :=
  let chat_id := Telegram.chat_id m in
  let* known := contains chat_id in
  if negb known then
    try_except (sleep 1 >> reply_text S NO_HISTORY) pass
  else
    let* relevant_messages := getitem chat_id in
    match relevant_messages with
    | [] => try_except (sleep 1 >> reply_text S NO_MESSAGES) pass
    | _ :: _ =>
        let body := text_to_summarize relevant_messages in
        if String.length body <? 10 then
          try_except (sleep 1 >> reply_text S NOT_ENOUGH) pass
        else
          try_except
            (let* response := create S SYSTEM_PROMPT (USER_PROMPT body) in
             let* summary := summary_of response in
             sleep 1 >>
             reply_text S ("Summary:" +:+ newline +:+ summary))
            (try_except (sleep 1 >> reply_text S FAILED) pass)
    end.

(** ** The states the process can be in

    The dictionary starts empty and only the three handlers run. *)
Inductive reachable : world → Prop :=
  | reach_initial : reachable initial
  | reach_start S m w :
      reachable w → reachable (run (start S m) w)
  | reach_summarize S m w :
      reachable w → reachable (run (summarize S m) w)
  | reach_store m w :
      reachable w → reachable (run (store_message m) w).

(** The messages of a list handled one after the other. *)
Definition store_all (ms : list Telegram.Message) (w : world) : world :=
  foldl (λ w m, run (store_message m) w) w ms.

(** What a chat's list holds, the empty list for an unknown chat. *)
Definition retained (w : world) (chat_id : Z) : list entry :=
  default [] (message_history w !! chat_id).

(** The replies attempted and the completion requests made. *)
Definition replies (t : list event) : list string :=
  omap (λ e, match e with Reply b => Some b | _ => None end) t.

Definition generations (t : list event) : list (string * string) :=
  omap (λ e, match e with Generate sys usr => Some (sys, usr) | _ => None end) t.

(** The filter-then-slice at the end of [store_message], applied to the
    list after the append. *)
Definition evict (now : Z) (l : list entry) : list entry :=
  last_n MAX_RETAINED
    (filter (λ e, (now - RETENTION_WINDOW ≤ timestamp e)%Z) l).

(** A handler that only reads the dictionary. *)
Definition read_only {A} (c : M A) : Prop :=
  ∀ w, message_history (run c w) = message_history w.

(** What one run of a handler adds to the trace. *)
Definition emitted {A} (c : M A) (w : world) : list event :=
  drop (length (trace w)) (trace (run c w)).

(** The completion service gives no usable answer: the call raises, or the
    response has no choice, or its first choice has no content. *)
Definition faulty (S : services) (sys usr : string) : Prop :=
  match completion S sys usr with
  | Some (Some _ :: _) => False
  | _ => True
  end.

(** The request [summarize] sends for the list [l]. *)
Definition request (l : list entry) : event :=
  Generate SYSTEM_PROMPT (USER_PROMPT (text_to_summarize l)).

Definition summary_reply (content : string) : string :=
  "Summary:" +:+ newline +:+ strip content.

(** The first character of a string is not white space. *)
Definition starts_clean (s : string) : Prop :=
  match s with
  | EmptyString => True
  | String c _ => isspace c = false
  end.

(** No white space at either end. *)
Definition trimmed (s : string) : Prop :=
  starts_clean s ∧ starts_clean (string_rev s).

Fixpoint last_char (s : string) : option ascii :=
  match s with
  | EmptyString => None
  | String c EmptyString => Some c
  | String _ r => last_char r
  end.

(** At the time of the trigger [m], every retained message of its chat is
    older than one window. *)
Definition aged_out (w : world) (m : Telegram.Message) : Prop :=
  Forall (λ e, (timestamp e < Telegram.date m - RETENTION_WINDOW)%Z)
    (retained w (Telegram.chat_id m)).

(** ** Sample inputs *)

Definition alice : Telegram.User :=
  {| Telegram.username := Some "alice"; Telegram.first_name := "Alice" |}.
Definition bob : Telegram.User :=
  {| Telegram.username := None; Telegram.first_name := "bob" |}.

Definition message_at (chat : Z) (who : Telegram.User) (txt : string) (t : Z)
  : Telegram.Message :=
  {| Telegram.chat_id := chat; Telegram.text := Some txt;
     Telegram.date := t; Telegram.from_user := who |}.

Definition noon : Telegram.Message := message_at 1 alice "lunch at noon" 7200.
Definition stale : Telegram.Message := message_at 1 bob "ok" 0.
Definition elsewhere : Telegram.Message := message_at 2 bob "see you there" 7300.

(** The entry a message is stored as, when its text is kept. *)
Definition as_entry (m : Telegram.Message) : entry :=
  entry_of m (default EmptyString (Telegram.text m)).

(** The handler keeps a message when its text is neither [None] nor empty. *)
Definition accepted (m : Telegram.Message) : Prop :=
  ∃ txt, Telegram.text m = Some txt ∧ txt ≠ EmptyString.

(** Every retained element of chat [c], after the messages [ms] were
    handled from the start, is no older than one window before the
    greatest date among the messages of [ms] stored for [c]: it is within
    the window of each of them. *)
Definition within_window_of_latest (ms : list Telegram.Message) (c : Z) : Prop :=
  ∀ e m, e ∈ retained (store_all ms initial) c →
         m ∈ ms → Telegram.chat_id m = c → accepted m →
         (Telegram.date m - RETENTION_WINDOW ≤ timestamp e)%Z.

(** The dates never go back along the list. *)
Definition in_date_order (ms : list Telegram.Message) : Prop :=
  ∀ i j mi mj, ms !! i = Some mi → ms !! j = Some mj → i ≤ j →
               (Telegram.date mi ≤ Telegram.date mj)%Z.

(** A burst of 101 accepted messages to chat 7, one per second. *)
Definition burst : list Telegram.Message :=
  (λ i : nat, message_at 7 alice "ping" (Z.of_nat i)) <$> seq 0 101.

Definition brief : Telegram.Message := message_at 3 bob "ok" 0.

(** The /summarize command, sent to chat 1 two hours after [noon], and
    to chat 3. *)
Definition trigger : Telegram.Message := message_at 1 alice "/summarize" 14400.
Definition trigger3 : Telegram.Message := message_at 3 alice "/summarize" 60.

(** A service that answers [content] and a transport that delivers; a
    service whose call raises. *)
Definition answering (content : string) : services :=
  Services (λ _ _, Some [Some content]) (λ _, true).
Definition down : services :=
  Services (λ _ _, None) (λ _, true).

Definition plan : string := "Alice and Bob plan lunch at noon.".

(** ** Start-up: the module level and [main]

    [environ] is [os.environ] once [load_dotenv()] has run.  Building the
    application and registering the three handlers are calls into the
    library; what [main] decides is how the bot is served. *)







(** Every reply of the trace comes directly after a one-second sleep. *)
Fixpoint paced (t : list event) : bool :=
  match t with
  | [] => true
  | Sleep 1 :: Reply _ :: t' => paced t'
  | Generate _ _ :: t' => paced t'
  | _ => false
  end.

(** Nothing but white space. *)
Fixpoint all_space (s : string) : bool :=
  match s with
  | EmptyString => true
  | String c r => isspace c && all_space r
  end.

(** A transport that refuses every reply. *)
Definition unreachable_user (content : string) : services :=
  Services (λ _ _, Some [Some content]) (λ _, false).


(** [store_message] keeps the message: its text is neither [None] nor
    empty. *)
Definition stores (m : Telegram.Message) : bool :=
  match Telegram.text m with
  | Some (String _ _) => true
  | _ => false
  end.

(** The entries of the messages of [ms] that [store_message] keeps for chat
    [c], in the order of arrival. *)
Definition stored_for (c : Z) (ms : list Telegram.Message) : list entry :=
  as_entry <$> filter (λ m, Telegram.chat_id m = c ∧ stores m = true) ms.

Definition by_timestamp (e1 e2 : entry) : Prop :=
  (timestamp e1 ≤ timestamp e2)%Z.

(** Three messages in the order of their dates, to two chats. *)
Definition morning : list Telegram.Message :=
  [message_at 1 alice "lunch at noon" 7200;
   message_at 2 bob "see you there" 7300;
   message_at 1 bob "ok" 7360;
   message_at 1 alice "on my way" 10900].

(** A message of chat 1 sent 61 minutes after [noon], and one without
    text (a photo, say). *)
Definition later : Telegram.Message := message_at 1 bob "see you there" 10860.
Definition photo : Telegram.Message :=
  {| Telegram.chat_id := 1; Telegram.text := None;
     Telegram.date := 7300; Telegram.from_user := bob |}.

(** * Properties *)

(** ** One call of [store_message], in closed form *)

Lemma store_message_text m txt w :
  Telegram.text m = Some txt → txt ≠ EmptyString →
  store_message m w =
    (Ok (),
     World (<[Telegram.chat_id m :=
                evict (Telegram.date m)
                  (retained w (Telegram.chat_id m) ++ [entry_of m txt])]>
              (message_history w))
           (trace w)).
Proof.
  intros Htxt Hne. unfold store_message, retained. rewrite Htxt.
  destruct txt as [|c txt]; [done|].
  unfold bind, contains, getitem, setitem, pass, ret, evict. cbn [message_history].
  destruct (message_history w !! Telegram.chat_id m) as [l|] eqn:Hl.
  - rewrite bool_decide_eq_true_2 by eauto.
    cbn [message_history]. rewrite Hl. cbn [message_history trace default].
    rewrite lookup_insert_eq. cbn [message_history trace].
    by rewrite insert_insert_eq.
  - rewrite bool_decide_eq_false_2 by (intros [? ?]; done).
    cbn [message_history]. rewrite lookup_insert_eq.
    cbn [message_history trace default].
    rewrite lookup_insert_eq. cbn [message_history trace].
    by rewrite !insert_insert_eq.
Qed.

Lemma store_message_no_text m w :
  Telegram.text m = None ∨ Telegram.text m = Some EmptyString →
  store_message m w = (Ok (), w).
Proof. unfold store_message. by intros [-> | ->]. Qed.

(** The handler either ignores the message or stores its text. *)
Lemma store_message_cases m :
  (Telegram.text m = None ∨ Telegram.text m = Some EmptyString)
  ∨ ∃ txt, Telegram.text m = Some txt ∧ txt ≠ EmptyString.
Proof.
  destruct (Telegram.text m) as [[|c s]|]; [by left; right| |by left; left].
  right. by eexists.
Qed.

(** ** Lists: the slice and the filter *)

Section slices.
Context {A : Type}.
Implicit Types (l k : list A) (n : nat).

Lemma last_n_length l n : length (last_n n l) = length l `min` n.
Proof. unfold last_n. rewrite length_drop. lia. Qed.

Lemma last_n_short l n : length l ≤ n → last_n n l = l.
Proof.
  intros H. unfold last_n. by replace (length l - n) with 0 by lia.
Qed.

Lemma last_n_suffix l n : last_n n l `suffix_of` l.
Proof. apply suffix_drop. Qed.

Lemma last_n_last l n : 0 < n → last (last_n n l) = last l.
Proof.
  intros Hn. unfold last_n.
  destruct (decide (length l = 0)) as [Hz|Hz].
  { by replace (length l - n) with 0 by lia. }
  rewrite !last_lookup, length_drop, lookup_drop. f_equal. lia.
Qed.
End slices.

Lemma filter_all {A} (P : A → Prop) `{!∀ x, Decision (P x)} (l : list A) :
  Forall P l → filter P l = l.
Proof.
  induction 1 as [|x l Hx _ IH]; [done|].
  by rewrite filter_cons_True, IH.
Qed.

(** ** Handlers that only read the dictionary *)

Lemma read_only_ret {A} (a : A) : read_only (ret a).
Proof. done. Qed.

Lemma read_only_raise {A} : read_only (@raise A).
Proof. done. Qed.

Lemma read_only_emit e : read_only (emit e).
Proof. done. Qed.

Lemma read_only_bind {A B} (c : M A) (f : A → M B) :
  read_only c → (∀ a, read_only (f a)) → read_only (bind c f).
Proof.
  intros Hc Hf w. unfold run, bind. specialize (Hc w). unfold run in Hc.
  destruct (c w) as [[a|] w']; cbn in *; [|done].
  rewrite <- Hc. apply Hf.
Qed.

Lemma read_only_try body handler :
  read_only body → read_only handler → read_only (try_except body handler).
Proof.
  intros Hb Hh w. unfold run, try_except. specialize (Hb w). unfold run in Hb.
  destruct (body w) as [[a|] w']; cbn in *; [done|].
  rewrite <- Hb. apply Hh.
Qed.

Lemma read_only_getitem k : read_only (getitem k).
Proof. intros w. unfold run, getitem. by destruct (_ !! _). Qed.

Lemma read_only_contains k : read_only (contains k).
Proof. done. Qed.

Lemma read_only_reply S body : read_only (reply_text S body).
Proof.
  apply read_only_bind; [apply read_only_emit|].
  intros _. destruct (delivers S body); done.
Qed.

Lemma read_only_create S sys usr : read_only (create S sys usr).
Proof.
  apply read_only_bind; [apply read_only_emit|].
  intros _. destruct (completion S sys usr); done.
Qed.

Lemma read_only_notice S body :
  read_only (try_except (sleep 1 >> reply_text S body) pass).
Proof.
  apply read_only_try; [|done].
  apply read_only_bind; [apply read_only_emit|].
  intros _. apply read_only_reply.
Qed.

Lemma read_only_start S m : read_only (start S m).
Proof. apply read_only_notice. Qed.

Lemma read_only_summarize S m : read_only (summarize S m).
Proof.
  unfold summarize.
  apply read_only_bind; [apply read_only_contains|]. intros known.
  destruct known; cbn [negb]; [|apply read_only_notice].
  apply read_only_bind; [apply read_only_getitem|]. intros [|e l].
  { apply read_only_notice. }
  destruct (_ <? _); [apply read_only_notice|].
  apply read_only_try; [|apply read_only_notice].
  apply read_only_bind; [apply read_only_create|]. intros choices.
  apply read_only_bind.
  { destruct choices as [|[content|] ?]; done. }
  intros summary.
  apply read_only_bind; [apply read_only_emit|].
  intros _. apply read_only_reply.
Qed.

(** ** Every list in a reachable dictionary has an element *)

Lemma evict_last now l e :
  (now - RETENTION_WINDOW ≤ timestamp e)%Z →
  last (evict now (l ++ [e])) = Some e.
Proof.
  intros He. unfold evict.
  rewrite last_n_last by (unfold MAX_RETAINED; lia).
  rewrite filter_app, filter_cons_True by done.
  by rewrite filter_nil, last_snoc.
Qed.

Lemma window_reaches_back now : (now - RETENTION_WINDOW ≤ now)%Z.
Proof. unfold RETENTION_WINDOW. lia. Qed.

Lemma store_message_keeps_nonempty m w :
  (∀ c l, message_history w !! c = Some l → l ≠ []) →
  ∀ c l, message_history (run (store_message m) w) !! c = Some l → l ≠ [].
Proof.
  intros Hw c l.
  destruct (store_message_cases m) as [Hno | (txt & Htxt & Hne)].
  - unfold run. rewrite store_message_no_text by done. apply Hw.
  - unfold run. rewrite (store_message_text m txt) by done.
    cbn [snd message_history].
    destruct (decide (Telegram.chat_id m = c)) as [<-|Hc].
    + rewrite lookup_insert_eq. intros [= <-] Hnil.
      pose proof (evict_last (Telegram.date m)
        (retained w (Telegram.chat_id m)) (entry_of m txt)
        (window_reaches_back _)) as Hlast.
      by rewrite Hnil in Hlast.
    + rewrite lookup_insert_ne by done. apply Hw.
Qed.

Lemma reachable_nonempty w :
  reachable w → ∀ c l, message_history w !! c = Some l → l ≠ [].
Proof.
  induction 1 as [|S m w _ IH|S m w _ IH|m w _ IH].
  - intros c l. cbn. by rewrite lookup_empty.
  - by rewrite read_only_start.
  - by rewrite read_only_summarize.
  - by apply store_message_keeps_nonempty.
Qed.

(** ** Isolation between chats *)

Lemma store_message_elsewhere m w (other : Z) :
  other ≠ Telegram.chat_id m →
  message_history (run (store_message m) w) !! other
  = message_history w !! other.
Proof.
  intros Hne.
  destruct (store_message_cases m) as [Hno | (txt & Htxt & Hnonempty)].
  - unfold run. by rewrite store_message_no_text.
  - unfold run. rewrite (store_message_text m txt) by done.
    cbn [snd message_history]. by rewrite lookup_insert_ne.
Qed.

(** C8: a call of [store_message] for one chat leaves every other chat's
    entry as it was: the key is present afterwards exactly when it was
    before, and it holds the same list. *)
Theorem store_message_frame m w (other : Z) :
  other ≠ Telegram.chat_id m →
  let w' := run (store_message m) w in
  message_history w' !! other = message_history w !! other
  ∧ (other ∈ dom (message_history w') ↔ other ∈ dom (message_history w))
  ∧ retained w' other = retained w other.
Proof.
  intros Hne w'.
  pose proof (store_message_elsewhere m w other Hne) as Hsame.
  split; [done|]. split.
  - rewrite !elem_of_dom. subst w'. by rewrite Hsame.
  - unfold retained. subst w'. by rewrite Hsame.
Qed.

Lemma store_message_frame_witness :
  let w := run (store_message elsewhere) initial in
  let w' := run (store_message noon) w in
  2%Z ≠ Telegram.chat_id noon
  ∧ message_history w' !! 2%Z = message_history w !! 2%Z
  ∧ (2%Z ∈ dom (message_history w') ↔ 2%Z ∈ dom (message_history w))
  ∧ retained w' 2 = retained w 2.
Proof.
  split; [done|]. apply (store_message_frame noon); done.
Defined.

(** ** The appended message survives *)

Lemma retained_after_store m txt w :
  Telegram.text m = Some txt → txt ≠ EmptyString →
  retained (run (store_message m) w) (Telegram.chat_id m)
  = evict (Telegram.date m)
      (retained w (Telegram.chat_id m) ++ [entry_of m txt]).
Proof.
  intros Htxt Hne. unfold run, retained at 1.
  rewrite (store_message_text m txt) by done.
  cbn [snd message_history]. by rewrite lookup_insert_eq.
Qed.

(** C10: after a call of [store_message] that appends, the chat's list
    ends with the message just appended, and no key of the dictionary maps
    to the empty list. *)
Theorem appended_message_retained m txt w :
  reachable w →
  Telegram.text m = Some txt → txt ≠ EmptyString →
  let w' := run (store_message m) w in
  last (retained w' (Telegram.chat_id m)) = Some (entry_of m txt)
  ∧ is_Some (message_history w' !! Telegram.chat_id m)
  ∧ ∀ c l, message_history w' !! c = Some l → l ≠ [].
Proof.
  intros Hw Htxt Hne w'. split; [|split].
  - subst w'. rewrite (retained_after_store m txt) by done.
    apply evict_last, window_reaches_back.
  - subst w'. unfold run. rewrite (store_message_text m txt) by done.
    cbn [snd message_history]. rewrite lookup_insert_eq. eauto.
  - apply reachable_nonempty. by constructor.
Qed.

Lemma appended_message_retained_witness :
  let w' := run (store_message stale) (run (store_message noon) initial) in
  last (retained w' 1) = Some (Entry "ok" 0 "bob")
  ∧ is_Some (message_history w' !! 1%Z)
  ∧ ∀ c l, message_history w' !! c = Some l → l ≠ [].
Proof.
  apply (appended_message_retained stale "ok").
  - apply reach_store, reach_initial.
  - reflexivity.
  - discriminate.
Defined.

(** ** Bounds on a chat's list *)

Lemma evict_length now l : length (evict now l) ≤ MAX_RETAINED.
Proof. unfold evict. rewrite last_n_length. lia. Qed.

Lemma evict_fresh now l :
  Forall (λ e, (now - RETENTION_WINDOW ≤ timestamp e)%Z) (evict now l).
Proof.
  unfold evict, last_n. apply Forall_drop, Forall_forall.
  intros e He. by apply list_elem_of_filter in He as [? _].
Qed.

Lemma store_all_snoc ms m w :
  store_all (ms ++ [m]) w = run (store_message m) (store_all ms w).
Proof. unfold store_all. by rewrite foldl_app. Qed.

Lemma in_date_order_init ms m : in_date_order (ms ++ [m]) → in_date_order ms.
Proof.
  intros H i j mi mj Hi Hj. apply H; by apply lookup_app_l_Some.
Qed.

Lemma in_date_order_last ms m m' :
  in_date_order (ms ++ [m]) → m' ∈ ms ++ [m] →
  (Telegram.date m' ≤ Telegram.date m)%Z.
Proof.
  intros H Hin. apply list_elem_of_lookup in Hin as [i Hi].
  apply (H i (length ms) m' m Hi).
  - by rewrite lookup_app_r, Nat.sub_diag.
  - apply lookup_lt_Some in Hi. rewrite length_app in Hi. cbn in Hi. lia.
Qed.

(** When the dates never go back, the date of the message just appended is
    the greatest so far, and the window is counted from it. *)
Lemma in_date_order_within_window ms c :
  in_date_order ms → within_window_of_latest ms c.
Proof.
  induction ms as [|m ms IH] using rev_ind; intros Hord e m' He Hm' Hc Hacc.
  { by apply elem_of_nil in Hm'. }
  rewrite store_all_snoc in He.
  destruct (decide (Telegram.chat_id m = c)) as [Hchat|Hchat].
  - destruct (store_message_cases m) as [Hno | (txt & Htxt & Hne)].
    + unfold run in He. rewrite store_message_no_text in He by done.
      apply elem_of_app in Hm' as [Hm'|Hm'].
      * by apply (IH (in_date_order_init _ _ Hord) e m').
      * apply list_elem_of_singleton in Hm' as ->.
        destruct Hacc as (txt & Htxt & Hne), Hno as [Hno|Hno]; congruence.
    + rewrite <- Hchat in He.
      rewrite (retained_after_store m txt) in He by done.
      pose proof (proj1 (Forall_forall _ _) (evict_fresh _ _) e He) as Hfresh.
      cbn beta in Hfresh.
      pose proof (in_date_order_last ms m m' Hord Hm'). lia.
  - assert (retained (run (store_message m) (store_all ms initial)) c
            = retained (store_all ms initial) c) as Hsame.
    { unfold retained. by rewrite store_message_elsewhere. }
    rewrite Hsame in He.
    apply elem_of_app in Hm' as [Hm'|Hm'].
    + by apply (IH (in_date_order_init _ _ Hord) e m').
    + apply list_elem_of_singleton in Hm' as ->. done.
Qed.

(** C1, as the code has it: after a call of [store_message] that appends,
    the chat's list has at most [MAX_RETAINED] elements and each of them is
    no older than one [RETENTION_WINDOW] before the date of the message
    just appended; that date is the greatest appended so far when the
    messages arrive in the order of their dates. *)
Theorem store_message_bounds m txt w :
  Telegram.text m = Some txt → txt ≠ EmptyString →
  let l := retained (run (store_message m) w) (Telegram.chat_id m) in
  length l ≤ MAX_RETAINED
  ∧ Forall (λ e, (Telegram.date m - RETENTION_WINDOW ≤ timestamp e)%Z) l
  ∧ ∀ ms, w = store_all ms initial → in_date_order (ms ++ [m]) →
      within_window_of_latest (ms ++ [m]) (Telegram.chat_id m).
Proof.
  intros Htxt Hne l. subst l.
  rewrite (retained_after_store m txt) by done.
  split; [apply evict_length|]. split; [apply evict_fresh|].
  intros ms _. apply in_date_order_within_window.
Qed.

Lemma store_message_bounds_witness :
  let l := retained (run (store_message stale) (run (store_message noon) initial)) 1 in
  length l ≤ MAX_RETAINED
  ∧ Forall (λ e, (0 - RETENTION_WINDOW ≤ timestamp e)%Z) l.
Proof.
  destruct (store_message_bounds stale "ok" (run (store_message noon) initial))
    as (Hlen & Hfresh & _); [reflexivity | discriminate |].
  split; [exact Hlen | exact Hfresh].
Defined.

(** C1 as the specification words it fails: a message dated before the
    ones already stored is kept together with them, so the list holds
    elements older than one window before the greatest date seen. *)
Lemma late_arrival_outside_window :
  ¬ within_window_of_latest [noon; stale] 1.
Proof.
  intros H.
  specialize (H (Entry "ok" 0 "bob") noon).
  assert (7200 - RETENTION_WINDOW ≤ 0)%Z as Hle; [|by vm_compute in Hle].
  apply H.
  - vm_compute. apply list_elem_of_In. right. by left.
  - apply list_elem_of_In. by left.
  - reflexivity.
  - exists "lunch at noon". split; [reflexivity | discriminate].
Qed.

(** ** Eviction: the window first, the cap second *)

Lemma last_n_app {A} (l k : list A) n :
  last_n n (last_n n l ++ k) = last_n n (l ++ k).
Proof.
  destruct (decide (length l ≤ n)) as [Hle|Hgt].
  - by rewrite (last_n_short l n).
  - unfold last_n. rewrite !length_app, length_drop.
    rewrite !drop_app, drop_drop, length_drop.
    f_equal; f_equal; lia.
Qed.

Lemma accepted_entry m txt :
  Telegram.text m = Some txt → as_entry m = entry_of m txt.
Proof. unfold as_entry. by intros ->. Qed.

(** Messages of one chat that all lie within one window of each other and
    of what is already stored: the filter removes nothing, so the list is
    the last [MAX_RETAINED] of everything appended. *)
Lemma store_all_one_window c ms : ∀ w,
  Forall (λ m, Telegram.chat_id m = c ∧ accepted m) ms →
  (∀ m m', m ∈ ms → m' ∈ ms →
     (Telegram.date m' - RETENTION_WINDOW ≤ Telegram.date m)%Z) →
  (∀ e m', e ∈ retained w c → m' ∈ ms →
     (Telegram.date m' - RETENTION_WINDOW ≤ timestamp e)%Z) →
  length (retained w c) ≤ MAX_RETAINED →
  retained (store_all ms w) c
  = last_n MAX_RETAINED (retained w c ++ (as_entry <$> ms)).
Proof.
  induction ms as [|m ms IH]; intros w Hms Hpair Hold Hlen.
  - cbn. by rewrite app_nil_r, last_n_short.
  - apply Forall_cons in Hms as [[Hc (txt & Htxt & Hne)] Hms].
    cbn [store_all foldl]. fold (store_all ms (run (store_message m) w)).
    assert (retained (run (store_message m) w) c
            = last_n MAX_RETAINED (retained w c ++ [as_entry m])) as Hstep.
    { subst c. rewrite (retained_after_store m txt) by done.
      unfold evict. rewrite filter_all; [by rewrite (accepted_entry m txt)|].
      apply Forall_app. split.
      - apply Forall_forall. intros e He. apply (Hold e m He). left.
      - apply Forall_singleton. apply window_reaches_back. }
    rewrite IH.
    + rewrite Hstep, last_n_app, <- app_assoc. done.
    + done.
    + intros m1 m2 H1 H2. apply Hpair; by right.
    + intros e m' He Hm'. rewrite Hstep in He.
      apply elem_of_suffix with (l2 := retained w c ++ [as_entry m]) in He;
        [|apply last_n_suffix].
      apply elem_of_app in He as [He | He].
      * apply Hold; [done | by right].
      * apply list_elem_of_singleton in He as ->.
        rewrite (accepted_entry m txt) by done. cbn [entry_of timestamp].
        apply Hpair; [left | by right].
    + rewrite Hstep, last_n_length. lia.
Qed.

Lemma last_n_drop_one {A} (l : list A) n :
  length l = S n → last_n n l = drop 1 l.
Proof. intros H. unfold last_n. by replace (length l - n) with 1 by lia. Qed.

(** C2: a call of [store_message] that appends first removes the elements
    older than one window before the message's date and then keeps the
    last [MAX_RETAINED] of what is left, removing from the head; and 101
    accepted messages of one window, appended in sequence to a chat the
    dictionary does not know yet, leave the 2nd to the 101st. *)
Theorem eviction_order m txt w :
  Telegram.text m = Some txt → txt ≠ EmptyString →
  let after := retained (run (store_message m) w) (Telegram.chat_id m) in
  let fresh :=
    filter (λ e, (Telegram.date m - RETENTION_WINDOW ≤ timestamp e)%Z)
      (retained w (Telegram.chat_id m) ++ [entry_of m txt]) in
  after = drop (length fresh - MAX_RETAINED) fresh
  ∧ (MAX_RETAINED < length fresh → length after = MAX_RETAINED)
  ∧ (length fresh ≤ MAX_RETAINED → after = fresh)
  ∧ ∀ ms c,
      length ms = 101 →
      Forall (λ m, Telegram.chat_id m = c ∧ accepted m) ms →
      (∀ m m', m ∈ ms → m' ∈ ms →
         (Telegram.date m' - RETENTION_WINDOW ≤ Telegram.date m)%Z) →
      message_history w !! c = None →
      retained (store_all ms w) c = as_entry <$> drop 1 ms
      ∧ length (retained (store_all ms w) c) = 100.
Proof.
  intros Htxt Hne after fresh.
  assert (after = last_n MAX_RETAINED fresh) as Hafter.
  { subst after fresh. by rewrite (retained_after_store m txt). }
  split; [done|]. split; [|split].
  - intros Hlt. rewrite Hafter, last_n_length. lia.
  - intros Hle. by rewrite Hafter, last_n_short.
  - intros ms c Hlen Hms Hpair Hnew.
    assert (retained w c = []) as Hnil by (unfold retained; by rewrite Hnew).
    assert (retained (store_all ms w) c = as_entry <$> drop 1 ms) as ->.
    { rewrite (store_all_one_window c ms w Hms Hpair).
      - rewrite Hnil, app_nil_l, last_n_drop_one.
        + by rewrite fmap_drop.
        + by rewrite length_fmap.
      - rewrite Hnil. intros e m' He. by apply elem_of_nil in He.
      - rewrite Hnil. cbn. lia. }
    split; [done|]. rewrite length_fmap, length_drop. lia.
Qed.

Lemma burst_elem m :
  m ∈ burst → ∃ i : nat, m = message_at 7 alice "ping" (Z.of_nat i) ∧ i < 101.
Proof.
  unfold burst. intros Hm.
  apply list_elem_of_fmap in Hm as (i & -> & Hi).
  apply elem_of_seq in Hi. exists i. split; [done | lia].
Qed.

Lemma eviction_order_witness :
  retained (run (store_message noon) initial) 1
  = [Entry "lunch at noon" 7200 "alice"]
  ∧ retained (store_all burst initial) 7 = as_entry <$> drop 1 burst
  ∧ length (retained (store_all burst initial) 7) = 100
  ∧ head (retained (store_all burst initial) 7) = Some (Entry "ping" 1 "alice").
Proof.
  destruct (eviction_order noon "lunch at noon" initial eq_refl
              ltac:(discriminate)) as (Hstep & _ & _ & Hburst).
  split; [etrans; [exact Hstep | reflexivity]|].
  destruct (Hburst burst 7%Z) as [Hkept Hcount].
  - reflexivity.
  - apply Forall_forall. intros m Hm.
    apply burst_elem in Hm as (i & -> & _).
    split; [reflexivity|]. exists "ping". split; [reflexivity | discriminate].
  - intros m m' Hm Hm'.
    apply burst_elem in Hm as (i & -> & Hi).
    apply burst_elem in Hm' as (j & -> & Hj).
    unfold RETENTION_WINDOW. cbn. lia.
  - reflexivity.
  - split; [exact Hkept|]. split; [exact Hcount|].
    rewrite Hkept. reflexivity.
Defined.

(** ** [summarize], branch by branch *)

Lemma emitted_app {A} (c : M A) w h t :
  run c w = World h (trace w ++ t) → emitted c w = t.
Proof. unfold emitted. intros ->. cbn [trace]. apply drop_app_length. Qed.

(** A reply guarded by its own [try]: whether the transport delivers or
    raises, the handler goes on. *)
Lemma notice_run S body w :
  try_except (sleep 1 >> reply_text S body) pass w
  = (Ok (), World (message_history w) (trace w ++ [Sleep 1; Reply body])).
Proof.
  unfold try_except, bind, sleep, reply_text, emit, bind, pass, ret, raise.
  cbn [message_history trace].
  destruct (delivers S body); by rewrite <- app_assoc.
Qed.

Lemma summarize_unknown S m w :
  message_history w !! Telegram.chat_id m = None →
  summarize S m w
  = (Ok (), World (message_history w) (trace w ++ [Sleep 1; Reply NO_HISTORY])).
Proof.
  intros Hnone. unfold summarize, bind at 1, contains.
  rewrite Hnone, bool_decide_eq_false_2 by (intros [? ?]; done).
  cbn [negb]. apply notice_run.
Qed.

Lemma summarize_known S m w l :
  message_history w !! Telegram.chat_id m = Some l →
  summarize S m w =
  match l with
  | [] => try_except (sleep 1 >> reply_text S NO_MESSAGES) pass
  | _ :: _ =>
      if String.length (text_to_summarize l) <? 10 then
        try_except (sleep 1 >> reply_text S NOT_ENOUGH) pass
      else
        try_except
          (let* response :=
             create S SYSTEM_PROMPT (USER_PROMPT (text_to_summarize l)) in
           let* summary := summary_of response in
           sleep 1 >>
           reply_text S ("Summary:" +:+ newline +:+ summary))
          (try_except (sleep 1 >> reply_text S FAILED) pass)
  end w.
Proof.
  intros Hsome. unfold summarize, bind at 1, contains.
  rewrite Hsome, bool_decide_eq_true_2 by (by eexists).
  cbn [negb]. unfold bind at 1, getitem. by rewrite Hsome.
Qed.

Lemma summarize_empty S m w :
  message_history w !! Telegram.chat_id m = Some [] →
  summarize S m w
  = (Ok (), World (message_history w) (trace w ++ [Sleep 1; Reply NO_MESSAGES])).
Proof. intros H. rewrite (summarize_known S m w []) by done. apply notice_run. Qed.

Lemma summarize_short S m w l :
  message_history w !! Telegram.chat_id m = Some l → l ≠ [] →
  String.length (text_to_summarize l) < 10 →
  summarize S m w
  = (Ok (), World (message_history w) (trace w ++ [Sleep 1; Reply NOT_ENOUGH])).
Proof.
  intros H Hne Hlen. rewrite (summarize_known S m w l) by done.
  destruct l; [done|].
  rewrite (proj2 (Nat.ltb_lt _ _)) by done. apply notice_run.
Qed.

(** The body of the last [try], when the service gives no usable answer
    and when it gives one. *)
Lemma attempt_faulty S body w :
  faulty S SYSTEM_PROMPT (USER_PROMPT body) →
  (let* response := create S SYSTEM_PROMPT (USER_PROMPT body) in
   let* summary := summary_of response in
   sleep 1 >> reply_text S ("Summary:" +:+ newline +:+ summary)) w
  = (Raised,
     World (message_history w)
           (trace w ++ [Generate SYSTEM_PROMPT (USER_PROMPT body)])).
Proof.
  unfold faulty, bind, create, bind, emit, summary_of, raise, ret.
  by destruct (completion S _ _) as [[|[content|] rest]|].
Qed.

Lemma attempt_answered S body w content rest :
  completion S SYSTEM_PROMPT (USER_PROMPT body) = Some (Some content :: rest) →
  (let* response := create S SYSTEM_PROMPT (USER_PROMPT body) in
   let* summary := summary_of response in
   sleep 1 >> reply_text S ("Summary:" +:+ newline +:+ summary)) w
  = (if delivers S (summary_reply content) then Ok () else Raised,
     World (message_history w)
           (trace w ++ [Generate SYSTEM_PROMPT (USER_PROMPT body); Sleep 1;
                        Reply (summary_reply content)])).
Proof.
  intros Hans.
  unfold bind, create, bind, emit, summary_of, sleep, reply_text, bind, emit.
  rewrite Hans. unfold ret, raise, pass, ret. cbn [message_history trace].
  fold (summary_reply content).
  destruct (delivers S (summary_reply content)); by rewrite <- !app_assoc.
Qed.

Lemma summarize_faulty S m w l :
  message_history w !! Telegram.chat_id m = Some l → l ≠ [] →
  10 ≤ String.length (text_to_summarize l) →
  faulty S SYSTEM_PROMPT (USER_PROMPT (text_to_summarize l)) →
  summarize S m w
  = (Ok (),
     World (message_history w)
           (trace w ++ [request l; Sleep 1; Reply FAILED])).
Proof.
  intros H Hne Hlen Hfault. rewrite (summarize_known S m w l) by done.
  destruct l as [|e l]; [done|].
  rewrite (proj2 (Nat.ltb_ge _ _)) by done.
  unfold try_except at 1. rewrite attempt_faulty by done.
  rewrite notice_run. cbn [message_history trace].
  by rewrite <- app_assoc.
Qed.

Lemma summarize_answered S m w l content rest :
  message_history w !! Telegram.chat_id m = Some l → l ≠ [] →
  10 ≤ String.length (text_to_summarize l) →
  completion S SYSTEM_PROMPT (USER_PROMPT (text_to_summarize l))
  = Some (Some content :: rest) →
  summarize S m w
  = (Ok (),
     World (message_history w)
           (trace w ++ [request l; Sleep 1; Reply (summary_reply content)]
              ++ if delivers S (summary_reply content) then []
                 else [Sleep 1; Reply FAILED])).
Proof.
  intros H Hne Hlen Hans. rewrite (summarize_known S m w l) by done.
  destruct l as [|e l]; [done|].
  rewrite (proj2 (Nat.ltb_ge _ _)) by done.
  unfold try_except at 1. rewrite (attempt_answered _ _ _ content rest) by done.
  destruct (delivers S (summary_reply content)).
  - by rewrite app_nil_r.
  - rewrite notice_run. cbn [message_history trace].
    by rewrite <- !app_assoc.
Qed.

(** Neither handler lets an exception out. *)
Lemma store_message_returns m w : outcome (store_message m) w = Ok ().
Proof.
  unfold outcome.
  destruct (store_message_cases m) as [Hno | (txt & Htxt & Hne)].
  - by rewrite store_message_no_text.
  - by rewrite (store_message_text m txt).
Qed.

Lemma summarize_returns S m w : outcome (summarize S m) w = Ok ().
Proof.
  unfold outcome.
  destruct (message_history w !! Telegram.chat_id m) as [l|] eqn:Hl;
    [|by rewrite summarize_unknown].
  destruct (decide (l = [])) as [->|Hne]; [by rewrite summarize_empty|].
  destruct (decide (String.length (text_to_summarize l) < 10)) as [Hlt|Hge];
    [by rewrite (summarize_short S m w l)|].
  destruct (completion S SYSTEM_PROMPT (USER_PROMPT (text_to_summarize l)))
    as [[|[content|] rest]|] eqn:Hc.
  - rewrite (summarize_faulty S m w l); [done..| lia |]. unfold faulty. by rewrite Hc.
  - rewrite (summarize_answered S m w l content rest); [done..| lia | done].
  - rewrite (summarize_faulty S m w l); [done..| lia |]. unfold faulty. by rewrite Hc.
  - rewrite (summarize_faulty S m w l); [done..| lia |]. unfold faulty. by rewrite Hc.
Qed.

(** ** Strings *)

Lemma append_cons x (a b : string) : String x a +:+ b = String x (a +:+ b).
Proof. reflexivity. Qed.

Lemma append_assoc (a b c : string) : (a +:+ b) +:+ c = a +:+ b +:+ c.
Proof.
  induction a as [|x a IH]; [reflexivity|].
  by rewrite !append_cons, IH.
Qed.

Lemma length_append (a b : string) :
  String.length (a +:+ b) = String.length a + String.length b.
Proof.
  induction a as [|x a IH]; [reflexivity|].
  rewrite append_cons. cbn [String.length]. by rewrite IH.
Qed.

Lemma last_char_append (a b : string) :
  b ≠ EmptyString → last_char (a +:+ b) = last_char b.
Proof.
  intros Hb. induction a as [|x a IH]; [reflexivity|].
  rewrite append_cons. cbn [last_char]. rewrite IH.
  destruct (a +:+ b) eqn:Hab; [|done].
  destruct a; [done | discriminate].
Qed.

Lemma string_rev_involutive s : string_rev (string_rev s) = s.
Proof.
  unfold string_rev.
  by rewrite list_ascii_of_string_of_list_ascii, rev_involutive,
    string_of_list_ascii_of_string.
Qed.

Lemma lstrip_clean s : starts_clean s → lstrip s = s.
Proof. destruct s as [|c s]; [done|]. cbn. by intros ->. Qed.

(** [strip] leaves a string alone when it has no white space at its ends. *)
Lemma strip_trimmed s : trimmed s → strip s = s.
Proof.
  intros [Hhead Hlast]. unfold strip, rstrip.
  by rewrite (lstrip_clean s), (lstrip_clean (string_rev s)),
    string_rev_involutive.
Qed.

(** ** The rendered body *)

Lemma join_cons sep p rest :
  rest ≠ [] → join sep (p :: rest) = p +:+ sep +:+ join sep rest.
Proof. by destruct rest. Qed.

Lemma join_app sep l1 l2 :
  l1 ≠ [] → l2 ≠ [] →
  join sep (l1 ++ l2) = join sep l1 +:+ sep +:+ join sep l2.
Proof.
  intros H1 H2. induction l1 as [|p l1 IH]; [done|].
  destruct l1 as [|q l1].
  - cbn [app]. by rewrite join_cons.
  - rewrite <- app_comm_cons.
    rewrite (join_cons sep p ((q :: l1) ++ l2)) by done.
    rewrite (join_cons sep p (q :: l1)) by done.
    rewrite IH by done. by rewrite !append_assoc.
Qed.

Lemma join_length sep l :
  l ≠ [] →
  String.length (join sep l)
  = sum_list (String.length <$> l) + (length l - 1) * String.length sep.
Proof.
  induction l as [|p l IH]; [done|]. intros _.
  destruct l as [|q l]; [cbn; lia|].
  rewrite join_cons, !length_append, IH by done. cbn. lia.
Qed.

Lemma emitted_summarize S m w t :
  summarize S m w = (Ok (), World (message_history w) (trace w ++ t)) →
  emitted (summarize S m) w = t.
Proof.
  intros H. apply (emitted_app _ _ (message_history w)). unfold run. by rewrite H.
Qed.

(** ** Nothing to summarize *)

(** C3, as the code has it: for a chat the dictionary has no key for, the
    reply is [NO_HISTORY]; for a key holding the empty list it is
    [NO_MESSAGES]; neither sends a completion request.  The handler takes
    nothing from the command but its chat, so the age of the stored
    messages plays no part, and in a reachable dictionary no key holds
    the empty list: for a known chat the reply is never [NO_MESSAGES]. *)
Theorem summarize_without_messages S m w :
  (message_history w !! Telegram.chat_id m = None →
     emitted (summarize S m) w = [Sleep 1; Reply NO_HISTORY])
  ∧ (message_history w !! Telegram.chat_id m = Some [] →
     emitted (summarize S m) w = [Sleep 1; Reply NO_MESSAGES])
  ∧ (∀ m', Telegram.chat_id m' = Telegram.chat_id m →
     summarize S m' w = summarize S m w)
  ∧ (reachable w → is_Some (message_history w !! Telegram.chat_id m) →
     NO_MESSAGES ∉ replies (emitted (summarize S m) w)).
Proof.
  split; [|split; [|split]].
  - intros H. by apply emitted_summarize, summarize_unknown.
  - intros H. by apply emitted_summarize, summarize_empty.
  - intros m' Hchat. unfold summarize. by rewrite Hchat.
  - intros Hw [l Hl].
    pose proof (reachable_nonempty w Hw _ _ Hl) as Hne.
    destruct (decide (String.length (text_to_summarize l) < 10)) as [Hlt|Hge].
    { rewrite (emitted_summarize S m w [Sleep 1; Reply NOT_ENOUGH])
        by by apply (summarize_short S m w l).
      cbn. intros Hin. apply list_elem_of_singleton in Hin. discriminate. }
    destruct (completion S SYSTEM_PROMPT (USER_PROMPT (text_to_summarize l)))
      as [[|[content|] rest]|] eqn:Hc.
    2: { rewrite (emitted_summarize S m w _
           (summarize_answered S m w l content rest Hl Hne ltac:(lia) Hc)).
         destruct (delivers S _); cbn; intros Hin.
         - apply list_elem_of_singleton in Hin. discriminate.
         - apply elem_of_cons in Hin as [Hin|Hin]; [discriminate|].
           apply list_elem_of_singleton in Hin. discriminate. }
    all: rewrite (emitted_summarize S m w [request l; Sleep 1; Reply FAILED])
      by (apply (summarize_faulty S m w l); [done..|lia|unfold faulty; by rewrite Hc]).
    all: cbn; intros Hin; apply list_elem_of_singleton in Hin; discriminate.
Qed.

Lemma summarize_without_messages_witness :
  emitted (summarize (answering plan) trigger) initial
  = [Sleep 1; Reply NO_HISTORY]
  ∧ NO_MESSAGES
    ∉ replies (emitted (summarize (answering plan) trigger)
                 (run (store_message noon) initial)).
Proof.
  destruct (summarize_without_messages (answering plan) trigger initial)
    as (Hunknown & _ & _ & _).
  destruct (summarize_without_messages (answering plan) trigger
              (run (store_message noon) initial)) as (_ & _ & _ & Hknown).
  split.
  - apply Hunknown. reflexivity.
  - apply Hknown.
    + apply reach_store, reach_initial.
    + vm_compute. by eexists.
Defined.

(** C3 as the specification words it fails: two hours after the only
    message of chat 1, that message is older than the window, and the
    trigger still sends it to the completion service and replies with the
    summary. *)
Lemma aged_out_still_summarized :
  let w := run (store_message noon) initial in
  aged_out w trigger
  ∧ is_Some (message_history w !! Telegram.chat_id trigger)
  ∧ emitted (summarize (answering plan) trigger) w
    = [request [as_entry noon]; Sleep 1; Reply (summary_reply plan)]
  ∧ emitted (summarize (answering plan) trigger) w ≠ [Sleep 1; Reply NO_MESSAGES].
Proof.
  assert (emitted (summarize (answering plan) trigger)
            (run (store_message noon) initial)
          = [request [as_entry noon]; Sleep 1; Reply (summary_reply plan)])
    as Hrun by (by vm_compute).
  cbv zeta. split; [|split; [|split]].
  - apply Forall_forall. intros e He. vm_compute in He.
    apply list_elem_of_In in He as [<-|[]]. by vm_compute.
  - vm_compute. by eexists.
  - exact Hrun.
  - rewrite Hrun. discriminate.
Qed.

(** ** A failing completion call *)

(** C4: when the completion call gives no usable answer, [summarize]
    returns without raising, the one reply it attempts is [FAILED], and the
    dictionary is as before; the next trigger for the same chat, with a
    service that answers and a transport that delivers, sends the same
    request and replies with the summary, and a message arriving after the
    failure is still stored. *)
Theorem generation_fault_contained S S' m m' w l content rest :
  message_history w !! Telegram.chat_id m = Some l → l ≠ [] →
  10 ≤ String.length (text_to_summarize l) →
  faulty S SYSTEM_PROMPT (USER_PROMPT (text_to_summarize l)) →
  Telegram.chat_id m' = Telegram.chat_id m →
  completion S' SYSTEM_PROMPT (USER_PROMPT (text_to_summarize l))
  = Some (Some content :: rest) →
  delivers S' (summary_reply content) = true →
  let w' := run (summarize S m) w in
  outcome (summarize S m) w = Ok ()
  ∧ emitted (summarize S m) w = [request l; Sleep 1; Reply FAILED]
  ∧ message_history w' = message_history w
  ∧ outcome (summarize S' m') w' = Ok ()
  ∧ emitted (summarize S' m') w'
    = [request l; Sleep 1; Reply (summary_reply content)]
  ∧ ∀ arriving, outcome (store_message arriving) w' = Ok ().
Proof.
  intros Hl Hne Hlen Hfault Hchat Hans Hsend w'.
  assert (message_history w' = message_history w) as Hsame
    by apply read_only_summarize.
  split; [apply summarize_returns|]. split.
  { by apply emitted_summarize, summarize_faulty. }
  split; [done|]. split; [apply summarize_returns|]. split.
  - apply emitted_summarize.
    rewrite (summarize_answered S' m' w' l content rest), Hsend;
      rewrite ?Hchat, ?Hsame; done.
  - intros arriving. apply store_message_returns.
Qed.

Lemma generation_fault_contained_witness :
  let w := run (store_message noon) initial in
  let w' := run (summarize down trigger) w in
  outcome (summarize down trigger) w = Ok ()
  ∧ emitted (summarize down trigger) w
    = [request [as_entry noon]; Sleep 1; Reply FAILED]
  ∧ message_history w' = message_history w
  ∧ outcome (summarize (answering plan) trigger) w' = Ok ()
  ∧ emitted (summarize (answering plan) trigger) w'
    = [request [as_entry noon]; Sleep 1; Reply (summary_reply plan)]
  ∧ ∀ arriving, outcome (store_message arriving) w' = Ok ().
Proof.
  apply (generation_fault_contained down (answering plan) trigger trigger
           (run (store_message noon) initial) [as_entry noon] plan []).
  - reflexivity.
  - discriminate.
  - vm_compute. lia.
  - exact I.
  - reflexivity.
  - reflexivity.
  - reflexivity.
Defined.

(** ** The minimum length *)

(** C5: when the body rendered from a chat's retained list has fewer than
    10 characters, [summarize] replies [NOT_ENOUGH] and sends no completion
    request. *)
Theorem short_body_not_sent S m w l :
  reachable w →
  message_history w !! Telegram.chat_id m = Some l →
  String.length (text_to_summarize l) < 10 →
  outcome (summarize S m) w = Ok ()
  ∧ emitted (summarize S m) w = [Sleep 1; Reply NOT_ENOUGH]
  ∧ generations (emitted (summarize S m) w) = [].
Proof.
  intros Hw Hl Hlen.
  pose proof (reachable_nonempty w Hw _ _ Hl) as Hne.
  assert (emitted (summarize S m) w = [Sleep 1; Reply NOT_ENOUGH]) as Hrun.
  { by apply emitted_summarize, (summarize_short S m w l). }
  split; [apply summarize_returns|]. split; [done|]. by rewrite Hrun.
Qed.

Lemma short_body_not_sent_witness :
  let w := run (store_message brief) initial in
  outcome (summarize (answering plan) trigger3) w = Ok ()
  ∧ emitted (summarize (answering plan) trigger3) w = [Sleep 1; Reply NOT_ENOUGH]
  ∧ generations (emitted (summarize (answering plan) trigger3) w) = [].
Proof.
  apply (short_body_not_sent (answering plan) trigger3
           (run (store_message brief) initial) [as_entry brief]).
  - apply reach_store, reach_initial.
  - reflexivity.
  - vm_compute. lia.
Defined.

(** ** A successful completion call *)

(** C6, as the code has it: when the first choice of the response has a
    content, the reply attempted is "Summary:", a line break, and the
    content with the white space at its ends stripped (the content itself
    when it has none there); should the transport refuse it, [FAILED] is
    attempted after it. *)
Theorem summary_delivered_stripped S m w l content rest :
  message_history w !! Telegram.chat_id m = Some l → l ≠ [] →
  10 ≤ String.length (text_to_summarize l) →
  completion S SYSTEM_PROMPT (USER_PROMPT (text_to_summarize l))
  = Some (Some content :: rest) →
  outcome (summarize S m) w = Ok ()
  ∧ emitted (summarize S m) w
    = [request l; Sleep 1; Reply ("Summary:" +:+ newline +:+ strip content)]
      ++ (if delivers S ("Summary:" +:+ newline +:+ strip content) then []
          else [Sleep 1; Reply FAILED])
  ∧ (trimmed content → strip content = content).
Proof.
  intros Hl Hne Hlen Hans.
  split; [apply summarize_returns|]. split; [|apply strip_trimmed].
  apply emitted_summarize. fold (summary_reply content).
  by apply (summarize_answered S m w l content rest).
Qed.

Lemma summary_delivered_stripped_witness :
  let w := run (store_message noon) initial in
  outcome (summarize (answering plan) trigger) w = Ok ()
  ∧ emitted (summarize (answering plan) trigger) w
    = [request [as_entry noon]; Sleep 1;
       Reply ("Summary:" +:+ newline +:+ strip plan)]
      ++ (if delivers (answering plan) ("Summary:" +:+ newline +:+ strip plan)
          then [] else [Sleep 1; Reply FAILED])
  ∧ (trimmed plan → strip plan = plan).
Proof.
  apply (summary_delivered_stripped (answering plan) trigger
           (run (store_message noon) initial) [as_entry noon] plan []).
  - reflexivity.
  - discriminate.
  - vm_compute. lia.
  - reflexivity.
Defined.

(** C6 as the specification words it fails: a content that ends with a
    line break is not delivered as it is; the reply is no string followed
    by that content. *)
Lemma padded_summary_not_verbatim :
  let w := run (store_message noon) initial in
  let S := answering (plan +:+ newline) in
  replies (emitted (summarize S trigger) w) = ["Summary:" +:+ newline +:+ plan]
  ∧ ∀ fixed_prefix,
      replies (emitted (summarize S trigger) w)
      ≠ [fixed_prefix +:+ plan +:+ newline].
Proof.
  assert (replies (emitted (summarize (answering (plan +:+ newline)) trigger)
                     (run (store_message noon) initial))
          = ["Summary:" +:+ newline +:+ plan]) as Hrun by (by vm_compute).
  cbv zeta. split; [exact Hrun|].
  intros fixed_prefix. rewrite Hrun. intros [= Heq].
  apply (f_equal last_char) in Heq.
  rewrite (last_char_append fixed_prefix) in Heq by discriminate.
  by vm_compute in Heq.
Qed.

(** ** The request body *)

Lemma text_to_summarize_app l1 l2 :
  l1 ≠ [] → l2 ≠ [] →
  text_to_summarize (l1 ++ l2)
  = text_to_summarize l1 +:+ " " +:+ text_to_summarize l2.
Proof.
  intros H1 H2. unfold text_to_summarize. rewrite fmap_app.
  apply join_app; by destruct l1, l2.
Qed.

Lemma render_length e :
  String.length (render e)
  = 4 + String.length (username e) + String.length (text e).
Proof. unfold render. rewrite !length_append. cbn. lia. Qed.

(** C7: the body sent for a retained list is the messages rendered as
    "[@username] text", in the order of the list, with one space between
    two neighbours and none at the ends; it is what the completion request
    carries after the instruction, and the list is the same after the
    handler has run. *)
Theorem request_body_rendering S m w l :
  message_history w !! Telegram.chat_id m = Some l →
  (∀ e, text_to_summarize [e] = "[@" +:+ username e +:+ "] " +:+ text e)
  ∧ (∀ l1 l2, l = l1 ++ l2 → l1 ≠ [] → l2 ≠ [] →
       text_to_summarize l
       = text_to_summarize l1 +:+ " " +:+ text_to_summarize l2)
  ∧ (l ≠ [] →
       String.length (text_to_summarize l)
       = sum_list ((λ e, String.length (render e)) <$> l) + (length l - 1))
  ∧ (l ≠ [] → 10 ≤ String.length (text_to_summarize l) →
       generations (emitted (summarize S m) w)
       = [(SYSTEM_PROMPT, USER_PROMPT (text_to_summarize l))])
  ∧ message_history (run (summarize S m) w) !! Telegram.chat_id m = Some l.
Proof.
  intros Hl. split; [done|]. split; [|split; [|split]].
  - intros l1 l2 -> H1 H2. by apply text_to_summarize_app.
  - intros Hne. unfold text_to_summarize.
    rewrite join_length by (by destruct l).
    rewrite length_fmap, <- list_fmap_compose.
    change (String.length " ") with 1. by rewrite Nat.mul_1_r.
  - intros Hne Hlen.
    destruct (completion S SYSTEM_PROMPT (USER_PROMPT (text_to_summarize l)))
      as [[|[content|] rest]|] eqn:Hc.
    2: { rewrite (emitted_summarize S m w _
           (summarize_answered S m w l content rest Hl Hne Hlen Hc)).
         by destruct (delivers S _). }
    all: by rewrite (emitted_summarize S m w [request l; Sleep 1; Reply FAILED])
      by (apply (summarize_faulty S m w l); [done..|unfold faulty; by rewrite Hc]).
  - by rewrite read_only_summarize.
Qed.

Lemma request_body_rendering_witness :
  let w := store_all [noon; message_at 1 bob "ok" 7260] initial in
  text_to_summarize (retained w 1) = "[@alice] lunch at noon [@bob] ok"
  ∧ generations (emitted (summarize (answering plan) trigger) w)
    = [(SYSTEM_PROMPT, USER_PROMPT "[@alice] lunch at noon [@bob] ok")]
  ∧ message_history (run (summarize (answering plan) trigger) w) !! 1%Z
    = message_history w !! 1%Z.
Proof.
  destruct (request_body_rendering (answering plan) trigger
              (store_all [noon; message_at 1 bob "ok" 7260] initial)
              [as_entry noon; as_entry (message_at 1 bob "ok" 7260)]
              eq_refl) as (_ & _ & _ & Hsent & Hsame).
  split; [reflexivity|]. split.
  - apply Hsent; [discriminate | vm_compute; lia].
  - exact Hsame.
Defined.

(** * Further properties of [store_message] *)

Lemma stores_accepted m : stores m = true ↔ accepted m.
Proof.
  unfold stores, accepted. destruct (Telegram.text m) as [[|c s]|]; split;
    try done.
  - intros (txt & [= <-] & Hne). done.
  - intros _. by eexists.
  - intros (txt & [=] & _).
Qed.

Lemma filter_sublist {A} (P : A → Prop) `{!∀ x, Decision (P x)} (l : list A) :
  filter P l `sublist_of` l.
Proof.
  induction l as [|x l IH]; [done|].
  rewrite filter_cons. destruct (decide (P x)); by constructor.
Qed.

Lemma evict_sublist now l : evict now l `sublist_of` l.
Proof.
  unfold evict, last_n. etrans; [apply sublist_drop | apply filter_sublist].
Qed.

(** What a call does to the list of any chat, whatever the message. *)
Lemma retained_after_any m w c :
  retained (run (store_message m) w) c
  = if decide (Telegram.chat_id m = c ∧ stores m = true)
    then evict (Telegram.date m) (retained w c ++ [as_entry m])
    else retained w c.
Proof.
  destruct (decide _) as [[<- Hst]|Hnot].
  - apply stores_accepted in Hst as (txt & Htxt & Hne).
    by rewrite (retained_after_store m txt), (accepted_entry m txt).
  - destruct (store_message_cases m) as [Hno | (txt & Htxt & Hne)].
    + unfold run. by rewrite store_message_no_text.
    + unfold retained. rewrite store_message_elsewhere; [done|].
      intros ->. apply Hnot. split; [done|].
      apply stores_accepted. by exists txt.
Qed.

(** The lists of a state reached by handling [ms] from the start. *)
Lemma stored_for_snoc c ms m :
  stored_for c (ms ++ [m])
  = stored_for c ms
    ++ if decide (Telegram.chat_id m = c ∧ stores m = true)
       then [as_entry m] else [].
Proof.
  unfold stored_for. rewrite filter_app, fmap_app. f_equal.
  rewrite filter_cons, filter_nil. by destruct (decide _).
Qed.

(** X1: handling a message never reorders a chat's list and never adds
    anything but the message's own entry at the end: the list afterwards
    is a sublist of the list before followed by that entry. *)
Theorem store_message_keeps_order m w c :
  retained (run (store_message m) w) c
  `sublist_of` retained w c ++ [as_entry m].
Proof.
  rewrite retained_after_any. destruct (decide _).
  - apply evict_sublist.
  - by apply sublist_inserts_r.
Qed.


(** X3: keys are only ever added. A message that is kept adds its chat to
    the keys (if it is not there yet) and touches no other key; a message
    without text leaves the whole state as it is, creating no key. *)
Theorem store_message_keys m w :
  dom (message_history w) ⊆ dom (message_history (run (store_message m) w))
  ∧ (stores m = true →
       dom (message_history (run (store_message m) w))
       = {[Telegram.chat_id m]} ∪ dom (message_history w))
  ∧ (stores m = false → run (store_message m) w = w).
Proof.
  destruct (store_message_cases m) as [Hno | (txt & Htxt & Hne)].
  - assert (stores m = false) as Hst
      by (unfold stores; by destruct Hno as [-> | ->]).
    unfold run. rewrite store_message_no_text by done. cbn [snd].
    split; [done|]. split; [by rewrite Hst | done].
  - assert (stores m = true) as Hst by (apply stores_accepted; by exists txt).
    unfold run. rewrite (store_message_text m txt) by done.
    cbn [snd message_history]. rewrite dom_insert_L.
    split; [set_solver|]. split; [done | by rewrite Hst].
Qed.

Lemma store_message_keys_witness :
  dom (message_history (run (store_message noon) initial)) = {[1%Z]} ∪ ∅
  ∧ run (store_message photo) initial = initial.
Proof.
  destruct (store_message_keys noon initial) as (_ & Hadd & _).
  destruct (store_message_keys photo initial) as (_ & _ & Hskip).
  split; [by rewrite Hadd | by apply Hskip].
Defined.

Lemma filter_none {A} (P : A → Prop) `{!∀ x, Decision (P x)} (l : list A) :
  Forall (λ x, ¬ P x) l → filter P l = [].
Proof.
  induction 1 as [|x l Hx _ IH]; [done|].
  by rewrite filter_cons_False, IH.
Qed.

(** X4: a message that arrives more than one window after every message
    retained for its chat leaves the list with that message alone. *)
Theorem store_message_after_gap m txt w :
  Telegram.text m = Some txt → txt ≠ EmptyString →
  Forall (λ e, (timestamp e < Telegram.date m - RETENTION_WINDOW)%Z)
    (retained w (Telegram.chat_id m)) →
  retained (run (store_message m) w) (Telegram.chat_id m) = [entry_of m txt].
Proof.
  intros Htxt Hne Hold. rewrite (retained_after_store m txt) by done.
  unfold evict. rewrite filter_app, filter_none.
  - rewrite filter_cons_True by apply window_reaches_back.
    rewrite filter_nil. by rewrite last_n_short by (cbn; unfold MAX_RETAINED; lia).
  - eapply Forall_impl; [exact Hold|]. cbn. intros e He. lia.
Qed.

Lemma store_message_after_gap_witness :
  retained (run (store_message later) (run (store_message noon) initial)) 1
  = [Entry "see you there" 10860 "bob"].
Proof.
  apply (store_message_after_gap later "see you there"
           (run (store_message noon) initial)).
  - reflexivity.
  - discriminate.
  - apply Forall_forall. intros e He. vm_compute in He.
    apply list_elem_of_In in He as [<-|[]]. by vm_compute.
Defined.

(** ** Invariants of the reachable states *)

Lemma reachable_lists (P : list entry → Prop) :
  (∀ m txt l,
     Telegram.text m = Some txt → txt ≠ EmptyString → l = [] ∨ P l →
     P (evict (Telegram.date m) (l ++ [entry_of m txt]))) →
  ∀ w, reachable w → ∀ c l, message_history w !! c = Some l → P l.
Proof.
  intros Hstep w. induction 1 as [|S m w _ IH|S m w _ IH|m w _ IH]; intros c l.
  - cbn. by rewrite lookup_empty.
  - rewrite read_only_start. apply IH.
  - rewrite read_only_summarize. apply IH.
  - destruct (store_message_cases m) as [Hno | (txt & Htxt & Hne)].
    { unfold run. rewrite store_message_no_text by done. apply IH. }
    unfold run. rewrite (store_message_text m txt) by done.
    cbn [snd message_history].
    destruct (decide (Telegram.chat_id m = c)) as [<-|Hc].
    + rewrite lookup_insert_eq. intros [= <-]. apply Hstep; [done..|].
      unfold retained.
      destruct (message_history w !! Telegram.chat_id m) as [l0|] eqn:Hl0;
        [right; by apply (IH _ _ Hl0) | by left].
    + rewrite lookup_insert_ne by done. apply IH.
Qed.

(** X5: in every state the handlers can reach, every chat's list has at
    most [MAX_RETAINED] elements and every stored text is non-empty. *)
Theorem reachable_lists_bounded w :
  reachable w →
  ∀ c l, message_history w !! c = Some l →
         length l ≤ MAX_RETAINED ∧ Forall (λ e, text e ≠ EmptyString) l.
Proof.
  apply (reachable_lists
           (λ l, length l ≤ MAX_RETAINED ∧ Forall (λ e, text e ≠ EmptyString) l)).
  intros m txt l Htxt Hne Hl. split; [apply evict_length|].
  apply Forall_forall. intros e He.
  pose proof (elem_of_sublist _ _ _ He (evict_sublist _ _)) as Hin.
  apply elem_of_app in Hin as [Hin|Hin].
  - destruct Hl as [->|[_ Hl]]; [by apply elem_of_nil in Hin|].
    by apply (proj1 (Forall_forall _ _) Hl).
  - by apply list_elem_of_singleton in Hin as ->.
Qed.

Lemma reachable_store_all ms : reachable (store_all ms initial).
Proof.
  induction ms as [|m ms IH] using rev_ind; [apply reach_initial|].
  rewrite store_all_snoc. apply reach_store, IH.
Qed.

Lemma reachable_lists_bounded_witness :
  length (retained (store_all burst initial) 7) ≤ MAX_RETAINED
  ∧ Forall (λ e, text e ≠ EmptyString) (retained (store_all burst initial) 7).
Proof.
  apply (reachable_lists_bounded (store_all burst initial)
           (reachable_store_all burst) 7).
  by vm_compute.
Defined.

(** ** What the lists hold, in terms of the messages handled *)

Lemma retained_initial c : retained initial c = [].
Proof. unfold retained, initial. cbn. by rewrite lookup_empty. Qed.

Lemma retained_store_all_snoc ms m c :
  retained (store_all (ms ++ [m]) initial) c
  = if decide (Telegram.chat_id m = c ∧ stores m = true)
    then evict (Telegram.date m)
           (retained (store_all ms initial) c ++ [as_entry m])
    else retained (store_all ms initial) c.
Proof. by rewrite store_all_snoc, retained_after_any. Qed.

(** X6: whatever the messages and their dates, what a chat's list holds
    are entries of messages of that chat that had a text, each at most as
    often as it arrived and in the order of arrival. *)
Theorem retained_sublist_of_stored ms c :
  retained (store_all ms initial) c `sublist_of` stored_for c ms.
Proof.
  induction ms as [|m ms IH] using rev_ind.
  - by rewrite retained_initial.
  - rewrite retained_store_all_snoc, stored_for_snoc. destruct (decide _).
    + etrans; [apply evict_sublist|]. by apply sublist_app.
    + by rewrite app_nil_r.
Qed.

(** ** Messages that arrive in the order of their dates *)

Lemma stored_for_elem c ms e :
  e ∈ stored_for c ms → ∃ m, m ∈ ms ∧ e = as_entry m.
Proof.
  unfold stored_for. intros He.
  apply list_elem_of_fmap in He as (m & -> & Hm).
  apply list_elem_of_filter in Hm as [_ Hm]. by exists m.
Qed.

Lemma stored_for_sorted c ms :
  in_date_order ms → StronglySorted by_timestamp (stored_for c ms).
Proof.
  induction ms as [|m ms IH] using rev_ind; intros Hord.
  - constructor.
  - rewrite stored_for_snoc. apply StronglySorted_app_2.
    + intros e1 e2 H1 H2. destruct (decide _); [|by apply elem_of_nil in H2].
      apply list_elem_of_singleton in H2 as ->.
      apply stored_for_elem in H1 as (m1 & Hm1 & ->).
      unfold by_timestamp. cbn.
      apply (in_date_order_last ms m m1 Hord). apply elem_of_app. by left.
    + apply IH. by apply in_date_order_init in Hord.
    + destruct (decide _); repeat constructor.
Qed.

(** In a list sorted by timestamp the elements inside the window are a
    suffix. *)
Lemma sorted_window now l :
  StronglySorted by_timestamp l →
  ∃ u v, l = u ++ v
         ∧ Forall (λ e, ¬ (now - RETENTION_WINDOW ≤ timestamp e)%Z) u
         ∧ Forall (λ e, (now - RETENTION_WINDOW ≤ timestamp e)%Z) v.
Proof.
  induction 1 as [|e l Hl IH He].
  - by exists [], [].
  - destruct (decide (now - RETENTION_WINDOW ≤ timestamp e)%Z) as [Hin|Hout].
    + exists [], (e :: l). split; [done|]. split; [done|].
      constructor; [done|]. eapply Forall_impl; [exact He|].
      unfold by_timestamp. cbn. intros e' He'. lia.
    + destruct IH as (u & v & -> & Hu & Hv).
      exists (e :: u), v. split; [done|]. split; [by constructor | done].
Qed.

Lemma filter_window_split now u v :
  Forall (λ e, ¬ (now - RETENTION_WINDOW ≤ timestamp e)%Z) u →
  Forall (λ e, (now - RETENTION_WINDOW ≤ timestamp e)%Z) v →
  filter (λ e, (now - RETENTION_WINDOW ≤ timestamp e)%Z) (u ++ v) = v.
Proof.
  intros Hu Hv. by rewrite filter_app, (filter_none _ u), (filter_all _ v).
Qed.

Lemma filter_window_last_n now n l :
  StronglySorted by_timestamp l →
  filter (λ e, (now - RETENTION_WINDOW ≤ timestamp e)%Z) (last_n n l)
  = last_n n (filter (λ e, (now - RETENTION_WINDOW ≤ timestamp e)%Z) l).
Proof.
  intros Hl. destruct (sorted_window now l Hl) as (u & v & -> & Hu & Hv).
  rewrite (filter_window_split now u v) by done.
  unfold last_n. rewrite length_app, drop_app.
  rewrite filter_window_split by by apply Forall_drop.
  f_equal. lia.
Qed.

Lemma evict_sorted_suffix now l :
  StronglySorted by_timestamp l → evict now l `suffix_of` l.
Proof.
  intros Hl. destruct (sorted_window now l Hl) as (u & v & -> & Hu & Hv).
  unfold evict. rewrite (filter_window_split now u v) by done.
  etrans; [apply last_n_suffix | by apply suffix_app_r].
Qed.

(** Evicting for an earlier message first makes no difference. *)
Lemma evict_after_evict now0 now l e :
  StronglySorted by_timestamp (l ++ [e]) → (now0 ≤ now)%Z →
  evict now (evict now0 l ++ [e]) = evict now (l ++ [e]).
Proof.
  intros Hsorted Hle.
  pose proof (StronglySorted_app_1_l _ _ _ Hsorted) as Hl.
  destruct (sorted_window now0 l Hl) as (u & v & -> & Hu & Hv).
  pose proof (StronglySorted_app_1_r _ _ _ Hl) as Hsv.
  unfold evict at 2. rewrite (filter_window_split now0 u v) by done.
  unfold evict. rewrite !filter_app, filter_window_last_n by done.
  rewrite last_n_app. do 2 f_equal.
  rewrite (filter_none _ u); [done|].
  eapply Forall_impl; [exact Hu|]. cbn. intros e' He'. lia.
Qed.

(** X7: when the messages arrive in the order of their dates, the
    evictions made along the way leave no mark: a chat's list is the one
    eviction, for the date of the chat's last stored message, of all the
    chat's stored messages.  It is then a suffix of them, the most recent
    ones without a gap, sorted by timestamp. *)
Theorem in_order_retains_latest ms c :
  in_date_order ms →
  let l := retained (store_all ms initial) c in
  l = match last (stored_for c ms) with
      | None => []
      | Some newest => evict (timestamp newest) (stored_for c ms)
      end
  ∧ l `suffix_of` stored_for c ms
  ∧ StronglySorted by_timestamp l.
Proof.
  intros Hord l.
  assert (l = match last (stored_for c ms) with
              | None => []
              | Some newest => evict (timestamp newest) (stored_for c ms)
              end) as Hl.
  { subst l. induction ms as [|m ms IH] using rev_ind.
    { by rewrite retained_initial. }
    pose proof (stored_for_sorted c _ Hord) as Hsorted.
    rewrite retained_store_all_snoc. rewrite stored_for_snoc in Hsorted |- *.
    specialize (IH (in_date_order_init _ _ Hord)).
    destruct (decide _) as [Hkept|Hskip]; [|by rewrite app_nil_r].
    rewrite last_snoc. change (timestamp (as_entry m)) with (Telegram.date m).
    rewrite IH. destruct (last (stored_for c ms)) as [newest|] eqn:Hlast.
    - apply evict_after_evict; [done|].
      apply (StronglySorted_app_1_elem_of _ _ _ newest (as_entry m) Hsorted).
      + by apply last_Some_elem_of.
      + by apply list_elem_of_singleton.
    - by apply last_None in Hlast as ->. }
  pose proof (stored_for_sorted c ms Hord) as Hsorted.
  assert (l `suffix_of` stored_for c ms) as Hsuffix.
  { rewrite Hl. destruct (last (stored_for c ms));
      [by apply evict_sorted_suffix | apply suffix_nil]. }
  split; [done|]. split; [done|].
  destruct Hsuffix as [k Hk]. rewrite Hk in Hsorted.
  by apply StronglySorted_app_1_r in Hsorted.
Qed.

Lemma morning_in_date_order : in_date_order morning.
Proof.
  intros i j mi mj Hi Hj Hij.
  destruct i as [|[|[|[|i]]]]; destruct j as [|[|[|[|j]]]];
    cbn in Hi, Hj; simplify_eq; cbn; lia.
Defined.

Lemma in_order_retains_latest_witness :
  retained (store_all morning initial) 1
  = [Entry "ok" 7360 "bob"; Entry "on my way" 10900 "alice"]
  ∧ retained (store_all morning initial) 1 `suffix_of` stored_for 1 morning.
Proof.
  destruct (in_order_retains_latest morning 1 morning_in_date_order)
    as (Hclosed & Hsuffix & _).
  split; [|exact Hsuffix].
  etrans; [exact Hclosed | reflexivity].
Defined.

(** * Further properties of [summarize] and [start] *)

(** What one run of [summarize] adds to the trace, from what the dictionary
    holds for the chat. *)
Lemma summarize_trace S m w :
  ∃ t, summarize S m w = (Ok (), World (message_history w) (trace w ++ t))
  ∧ t = match message_history w !! Telegram.chat_id m with
        | None => [Sleep 1; Reply NO_HISTORY]
        | Some [] => [Sleep 1; Reply NO_MESSAGES]
        | Some l =>
            if String.length (text_to_summarize l) <? 10
            then [Sleep 1; Reply NOT_ENOUGH]
            else
              match completion S SYSTEM_PROMPT (USER_PROMPT (text_to_summarize l)) with
              | Some (Some content :: _) =>
                  [request l; Sleep 1; Reply (summary_reply content)]
                  ++ (if delivers S (summary_reply content) then []
                      else [Sleep 1; Reply FAILED])
              | _ => [request l; Sleep 1; Reply FAILED]
              end
        end.
Proof.
  destruct (message_history w !! Telegram.chat_id m) as [l|] eqn:Hl;
    [|eexists; split; [by apply summarize_unknown | done]].
  destruct l as [|e l]; [eexists; split; [by apply summarize_empty | done]|].
  destruct (String.length (text_to_summarize (e :: l)) <? 10) eqn:Hlen.
  { apply Nat.ltb_lt in Hlen.
    eexists; split; [by apply (summarize_short S m w (e :: l)) | done]. }
  apply Nat.ltb_ge in Hlen.
  destruct (completion S SYSTEM_PROMPT (USER_PROMPT (text_to_summarize (e :: l))))
    as [[|[content|] rest]|] eqn:Hc.
  2: { eexists; split;
         [by apply (summarize_answered S m w (e :: l) content rest) | done]. }
  all: eexists; split;
    [apply (summarize_faulty S m w (e :: l)); [done..|unfold faulty; by rewrite Hc]
    | done].
Qed.

Lemma emitted_summarize_lookup S m w1 w2 :
  message_history w1 !! Telegram.chat_id m
  = message_history w2 !! Telegram.chat_id m →
  emitted (summarize S m) w1 = emitted (summarize S m) w2.
Proof.
  intros Heq.
  destruct (summarize_trace S m w1) as (t1 & H1 & ->).
  destruct (summarize_trace S m w2) as (t2 & H2 & ->).
  rewrite (emitted_summarize S m w1 _ H1), (emitted_summarize S m w2 _ H2).
  by rewrite Heq.
Qed.

(** X8: a trigger sends at most one completion request, and it sends one
    exactly when the chat has a non-empty list whose rendered body has at
    least 10 characters; the request then carries that body, whatever the
    service and the transport do afterwards (no retry). *)
Theorem summarize_single_request S m w :
  generations (emitted (summarize S m) w)
  = match message_history w !! Telegram.chat_id m with
    | Some (e :: l) =>
        if String.length (text_to_summarize (e :: l)) <? 10 then []
        else [(SYSTEM_PROMPT, USER_PROMPT (text_to_summarize (e :: l)))]
    | _ => []
    end.
Proof.
  destruct (summarize_trace S m w) as (t & Hrun & ->).
  rewrite (emitted_summarize S m w _ Hrun).
  destruct (message_history w !! Telegram.chat_id m) as [[|e l]|]; [done| |done].
  destruct (_ <? _); [done|].
  destruct (completion S _ _) as [[|[content|] rest]|]; try done.
  by destruct (delivers S _).
Qed.


(** In what [summarize] and [start] add to the trace, every reply
    comes directly after a one-second sleep, the failure notice and the
    replies the transport refuses included. *)
Theorem replies_paced S m w :
  paced (emitted (summarize S m) w) = true
  ∧ paced (emitted (start S m) w) = true.
Proof.
  split.
  - destruct (summarize_trace S m w) as (t & Hrun & ->).
    rewrite (emitted_summarize S m w _ Hrun).
    destruct (message_history w !! Telegram.chat_id m) as [[|e l]|]; [done| |done].
    destruct (_ <? _); [done|].
    destruct (completion S _ _) as [[|[content|] rest]|]; try done.
    by destruct (delivers S _).
  - rewrite (emitted_app (start S m) w (message_history w) [Sleep 1; Reply START_TEXT]);
      [done|].
    unfold run, start. by rewrite notice_run.
Qed.


(** X11: what a trigger for one chat sends and replies does not depend on
    the messages stored for other chats, nor on the triggers and /start
    commands handled before it, failed or not. *)
Theorem summarize_unaffected S m w :
  (∀ m', Telegram.chat_id m' ≠ Telegram.chat_id m →
     emitted (summarize S m) (run (store_message m') w)
     = emitted (summarize S m) w)
  ∧ (∀ S' m', emitted (summarize S m) (run (summarize S' m') w)
              = emitted (summarize S m) w)
  ∧ (∀ S' m', emitted (summarize S m) (run (start S' m') w)
              = emitted (summarize S m) w).
Proof.
  split; [|split].
  - intros m' Hne. apply emitted_summarize_lookup.
    by apply store_message_elsewhere.
  - intros S' m'. apply emitted_summarize_lookup.
    by rewrite read_only_summarize.
  - intros S' m'. apply emitted_summarize_lookup.
    by rewrite read_only_start.
Qed.

Lemma summarize_unaffected_witness :
  emitted (summarize (answering plan) trigger)
    (run (store_message elsewhere) (run (store_message noon) initial))
  = emitted (summarize (answering plan) trigger)
      (run (store_message noon) initial).
Proof.
  destruct (summarize_unaffected (answering plan) trigger
              (run (store_message noon) initial)) as (Hother & _ & _).
  apply Hother. discriminate.
Defined.

(** ** When the body is long enough *)

Lemma rendered_at_least_five l :
  Forall (λ e, text e ≠ EmptyString) l →
  5 * length l ≤ sum_list ((λ e, String.length (render e)) <$> l).
Proof.
  induction 1 as [|e l He _ IH]; [done|].
  cbn [fmap list_fmap length]. cbn [sum_list_with]. unfold id at 1.
  rewrite render_length. destruct (text e) as [|c t]; [done|].
  cbn [String.length]. cbn in IH. lia.
Qed.

Lemma reachable_texts w c l :
  reachable w → message_history w !! c = Some l →
  l ≠ [] ∧ Forall (λ e, text e ≠ EmptyString) l.
Proof.
  intros Hw Hl. split; [by apply (reachable_nonempty w Hw c)|].
  revert w Hw c l Hl.
  apply (reachable_lists (λ l, Forall (λ e, text e ≠ EmptyString) l)).
  intros m txt l Htxt Hne Hl.
  apply Forall_forall. intros e He.
  pose proof (elem_of_sublist _ _ _ He (evict_sublist _ _)) as Hin.
  apply elem_of_app in Hin as [Hin|Hin].
  - destruct Hl as [->|Hl]; [by apply elem_of_nil in Hin|].
    by apply (proj1 (Forall_forall _ _) Hl).
  - by apply list_elem_of_singleton in Hin as ->.
Qed.

(** X12: in a reachable state the notice "Not enough text to summarize."
    is the outcome exactly when the chat holds a single message whose
    sender name and text have five characters or fewer together; with two
    or more messages retained a completion request is always sent. *)
Theorem not_enough_only_alone S m w l :
  reachable w →
  message_history w !! Telegram.chat_id m = Some l →
  (emitted (summarize S m) w = [Sleep 1; Reply NOT_ENOUGH]
   ↔ ∃ e, l = [e] ∧ String.length (username e) + String.length (text e) ≤ 5)
  ∧ (2 ≤ length l →
     generations (emitted (summarize S m) w)
     = [(SYSTEM_PROMPT, USER_PROMPT (text_to_summarize l))]).
Proof.
  intros Hw Hl.
  destruct (reachable_texts w _ l Hw Hl) as [Hne Htexts].
  assert (String.length (text_to_summarize l)
          = sum_list ((λ e, String.length (render e)) <$> l) + (length l - 1))
    as Hlen.
  { unfold text_to_summarize. rewrite join_length by (by destruct l).
    rewrite length_fmap, <- list_fmap_compose.
    change (String.length " ") with 1. by rewrite Nat.mul_1_r. }
  pose proof (rendered_at_least_five l Htexts) as Hfive.
  split.
  - destruct (summarize_trace S m w) as (t & Hrun & Ht).
    rewrite (emitted_summarize S m w _ Hrun). rewrite Hl in Ht.
    split.
    + intros Hshort. destruct l as [|e [|e' l]]; [done| |].
      * exists e. split; [done|].
        destruct (_ <? _) eqn:Hlt in Ht.
        -- apply Nat.ltb_lt in Hlt. rewrite Hlen in Hlt.
           cbn in Hlt. rewrite render_length in Hlt. lia.
        -- subst t. by destruct (completion S _ _) as [[|[?|] ?]|].
      * rewrite (proj2 (Nat.ltb_ge _ _)) in Ht by (rewrite Hlen; cbn in *; lia).
        subst t. by destruct (completion S _ _) as [[|[?|] ?]|].
    + intros (e & -> & Hsmall).
      rewrite (proj2 (Nat.ltb_lt _ _)) in Ht; [done|].
      rewrite Hlen. cbn. rewrite render_length. lia.
  - intros Htwo.
    destruct (summarize_trace S m w) as (t & Hrun & Ht).
    rewrite (emitted_summarize S m w _ Hrun). rewrite Hl in Ht.
    destruct l as [|e l]; [done|].
    rewrite (proj2 (Nat.ltb_ge _ _)) in Ht by (rewrite Hlen; cbn in *; lia).
    subst t. destruct (completion S _ _) as [[|[content|] rest]|]; try done.
    by destruct (delivers S _).
Qed.

Lemma not_enough_only_alone_witness :
  let w := run (store_message brief) initial in
  emitted (summarize down trigger3) w = [Sleep 1; Reply NOT_ENOUGH]
  ∧ generations
      (emitted (summarize down trigger)
         (store_all [noon; message_at 1 bob "ok" 7260] initial))
    = [(SYSTEM_PROMPT, USER_PROMPT "[@alice] lunch at noon [@bob] ok")].
Proof.
  split.
  - apply (not_enough_only_alone down trigger3
             (run (store_message brief) initial) [as_entry brief]).
    + apply reach_store, reach_initial.
    + reflexivity.
    + exists (as_entry brief). split; [reflexivity | vm_compute; lia].
  - apply (not_enough_only_alone down trigger
             (store_all [noon; message_at 1 bob "ok" 7260] initial)
             [as_entry noon; as_entry (message_at 1 bob "ok" 7260)]).
    + apply reach_store, reach_store, reach_initial.
    + reflexivity.
    + cbn. lia.
Defined.

(** ** The summary text that is shown *)

Lemma lstrip_starts_clean s : starts_clean (lstrip s).
Proof.
  induction s as [|c r IH]; [done|].
  cbn [lstrip]. destruct (isspace c) eqn:Hc; [done | exact Hc].
Qed.

Lemma lstrip_all_space s : all_space s = true → lstrip s = EmptyString.
Proof.
  induction s as [|c r IH]; [done|].
  cbn [all_space lstrip]. intros [-> Hr]%andb_prop. by apply IH.
Qed.

Lemma string_of_list_ascii_app a b :
  string_of_list_ascii (a ++ b)
  = string_of_list_ascii a +:+ string_of_list_ascii b.
Proof.
  induction a as [|x a IH]; [reflexivity|].
  cbn [app string_of_list_ascii]. by rewrite append_cons, IH.
Qed.

Lemma list_ascii_of_string_app a b :
  list_ascii_of_string (a +:+ b)
  = list_ascii_of_string a ++ list_ascii_of_string b.
Proof.
  induction a as [|x a IH]; [reflexivity|].
  rewrite append_cons. cbn [list_ascii_of_string app]. by rewrite IH.
Qed.

Lemma string_rev_cons c r :
  string_rev (String c r) = string_rev r +:+ String c EmptyString.
Proof.
  unfold string_rev. cbn [list_ascii_of_string rev].
  by rewrite string_of_list_ascii_app.
Qed.

Lemma string_rev_snoc y c :
  string_rev (y +:+ String c EmptyString) = String c (string_rev y).
Proof.
  unfold string_rev. rewrite list_ascii_of_string_app.
  cbn [list_ascii_of_string]. by rewrite rev_unit.
Qed.

Lemma lstrip_keeps_last x c :
  isspace c = false →
  ∃ y, lstrip (x +:+ String c EmptyString) = y +:+ String c EmptyString.
Proof.
  intros Hc. induction x as [|d x IH].
  - exists EmptyString. change (lstrip (String c EmptyString) = String c EmptyString).
    cbn [lstrip]. by rewrite Hc.
  - rewrite append_cons. cbn [lstrip].
    destruct (isspace d); [exact IH|]. by exists (String d x).
Qed.

Lemma rstrip_starts_clean t : starts_clean t → starts_clean (rstrip t).
Proof.
  destruct t as [|c r]; [done|]. cbn [starts_clean]. intros Hc.
  unfold rstrip. rewrite string_rev_cons.
  destruct (lstrip_keeps_last (string_rev r) c Hc) as [y ->].
  by rewrite string_rev_snoc.
Qed.

(** X13: the text put after "Summary:" never begins or ends with white
    space; stripping it again changes nothing, and a content is shown
    unchanged exactly when it has no white space at its ends. *)
Theorem strip_is_trimmed content :
  trimmed (strip content)
  ∧ strip (strip content) = strip content
  ∧ (strip content = content ↔ trimmed content).
Proof.
  assert (trimmed (strip content)) as Htrim.
  { split.
    - apply rstrip_starts_clean, lstrip_starts_clean.
    - unfold strip, rstrip. rewrite string_rev_involutive.
      apply lstrip_starts_clean. }
  split; [done|]. split; [by apply strip_trimmed|]. split.
  - intros <-. done.
  - apply strip_trimmed.
Qed.

(** X14: a content made of white space only (the empty content included)
    is not treated as a failure: the reply attempted is "Summary:" and a
    line break with nothing after it. *)
Theorem blank_summary_reply S m w l content rest :
  message_history w !! Telegram.chat_id m = Some l → l ≠ [] →
  10 ≤ String.length (text_to_summarize l) →
  completion S SYSTEM_PROMPT (USER_PROMPT (text_to_summarize l))
  = Some (Some content :: rest) →
  all_space content = true →
  emitted (summarize S m) w
  = [request l; Sleep 1; Reply ("Summary:" +:+ newline)]
    ++ (if delivers S ("Summary:" +:+ newline) then []
        else [Sleep 1; Reply FAILED]).
Proof.
  intros Hl Hne Hlen Hans Hblank.
  assert (summary_reply content = "Summary:" +:+ newline) as Hreply.
  { unfold summary_reply, strip. by rewrite lstrip_all_space. }
  rewrite (emitted_summarize S m w _
             (summarize_answered S m w l content rest Hl Hne Hlen Hans)).
  by rewrite Hreply.
Qed.

Lemma blank_summary_reply_witness :
  emitted (summarize (answering "   ") trigger) (run (store_message noon) initial)
  = [request [as_entry noon]; Sleep 1; Reply ("Summary:" +:+ newline)].
Proof.
  rewrite (blank_summary_reply (answering "   ") trigger
             (run (store_message noon) initial) [as_entry noon] "   " []).
  - reflexivity.
  - reflexivity.
  - discriminate.
  - vm_compute. lia.
  - reflexivity.
  - reflexivity.
Defined.

(** ** The whole trace *)

Lemma paced_app t1 t2 :
  paced t1 = true → paced t2 = true → paced (t1 ++ t2) = true.
Proof.
  revert t1. fix IH 1. intros [|e t1]; [done|].
  destruct e as [n|body|sys usr]; cbn [paced app].
  - destruct n as [|[| |]|]; try done.
    destruct t1 as [|[| |] t1]; try done. cbn [app]. apply IH.
  - done.
  - apply IH.
Qed.

(** X17: in every state the handlers can reach, the trace of outside calls
    has a one-second sleep directly before every reply, from the start of
    the process on. *)
Theorem reachable_trace_paced w : reachable w → paced (trace w) = true.
Proof.
  induction 1 as [|S m w _ IH|S m w _ IH|m w _ IH].
  - done.
  - unfold run, start. rewrite notice_run. cbn [snd trace].
    by apply paced_app.
  - destruct (summarize_trace S m w) as (t & Hrun & ->).
    unfold run. rewrite Hrun. cbn [snd trace]. apply paced_app; [done|].
    destruct (message_history w !! Telegram.chat_id m) as [[|e l]|]; [done| |done].
    destruct (_ <? _); [done|].
    destruct (completion S _ _) as [[|[content|] rest]|]; try done.
    by destruct (delivers S _).
  - unfold run.
    destruct (store_message_cases m) as [Hno | (txt & Htxt & Hne)].
    + by rewrite store_message_no_text.
    + by rewrite (store_message_text m txt).
Qed.

Lemma reachable_trace_paced_witness :
  paced (trace (run (summarize (unreachable_user plan) trigger)
                  (run (start down trigger) (run (store_message noon) initial))))
  = true.
Proof.
  apply reachable_trace_paced.
  apply reach_summarize, reach_start, reach_store, reach_initial.
Defined.

(** * Start-up *)




